(** * TFIDFTextEncoder: a shallow embedding of [tfidf_text_executor.py]

    The executor loads a fitted vectorizer from disk and, on each request,
    writes the vectorizer's rows back onto the documents that carry text.
    Documents are mutable objects shared by reference, so the embedding
    keeps an object store and threads it through the methods in a small
    state-and-exception monad. The vectorizer, the deserialiser and the host
    runtime's traversal are opaque functions of the environment. *)

From stdpp Require Import base option list gmap strings fin_maps.
From Stdlib Require Import ZArith Lia.


(** ** Python values and exceptions *)

(** The exceptions that can leave the module. *)
Inductive exception :=
  | ValueError (msg : string)
  | TypeError (msg : string)
  | PretrainedModelFileDoesNotExist (msg : string).

(** Values found in the request's [parameters] dict. *)
Inductive value :=
  | VInt (n : Z)
  | VStr (s : string).

Module Py.

(** [operator.index]: what [range] does to each of its arguments. *)
Definition index (v : value) : exception + Z :=
  match v with
  | VInt n => inr n
  | VStr _ => inl (TypeError "'str' object cannot be interpreted as an integer")
  end.

(** Number of elements of [range(start, stop, step)], [step] not zero. *)
Definition range_length (start stop step : Z) : nat :=
  if (0 <? step)%Z then
    if (start <? stop)%Z then Z.to_nat ((stop - start - 1) / step + 1) else 0
  else
    if (stop <? start)%Z then Z.to_nat ((start - stop - 1) / (- step) + 1) else 0.

(** [range(start, stop, step)], listed. *)
Definition range (start stop : Z) (step : value) : exception + list Z :=
  match index step with
  | inl e => inl e
  | inr s =>
      if (s =? 0)%Z then inl (ValueError "range() arg 3 must not be zero")
      else inr ((λ k : nat, (start + Z.of_nat k * s)%Z) <$> seq 0 (range_length start stop s))
  end.

(** A slice bound brought into [0, len]: a negative bound counts from the
    end, and both ends are clamped. *)
Definition slice_index (len i : Z) : Z :=
  if (i <? 0)%Z then Z.max 0 (i + len) else Z.min i len.

(** [l[i:j]]. *)
Definition slice {A} (l : list A) (i j : Z) : list A :=
  let n := Z.of_nat (length l) in
  let lo := slice_index n i in
  let hi := slice_index n j in
  take (Z.to_nat (hi - lo)) (drop (Z.to_nat lo) l).

(** [i + v] for an integer [i]. *)
Definition add (i : Z) (v : value) : exception + Z :=
  match v with
  | VInt n => inr (i + n)%Z
  | VStr _ => inl (TypeError "unsupported operand type(s) for +: 'int' and 'str'")
  end.

End Py.

(** A generator, run to exhaustion: the batches it yields, or the exception
    its body raises. Creating the generator runs nothing; the body runs
    when the generator is iterated. *)
Definition generator (A : Type) : Type := unit → exception + list A.

(** The loop of [_batch_generator]: [yield data[i: i + batch_size]] for each
    [i] of the range. *)
Fixpoint yield_slices {A} (data : list A) (batch_size : value) (starts : list Z)
    : exception + list (list A) :=
  match starts with
  | [] => inr []
  | i :: starts' =>
      match Py.add i batch_size with
      | inl e => inl e
      | inr j =>
          match yield_slices data batch_size starts' with
          | inl e => inl e
          | inr batches => inr (Py.slice data i j :: batches)
          end
      end
  end.

(** [_batch_generator(data, batch_size)]. [data] is never mutated while the
    generator is live, so the slices do not depend on when they are taken. *)
Definition _batch_generator {A} (data : list A) (batch_size : value) : generator (list A) :=
  λ _,
    match Py.range 0 (Z.of_nat (length data)) batch_size with
    | inl e => inl e
    | inr starts => yield_slices data batch_size starts
    end.

(** ** Documents, the executor and the world *)

(** A reference to a document object. *)
Definition ref := nat.

(** A document: optional text, the embedding field, and everything else the
    host runtime keeps on a document. *)
Record Document (Emb Rest : Type) : Type := mkDocument {
  text : option string;
  embedding : option Emb;
  rest : Rest
}.
Arguments mkDocument {Emb Rest} _ _ _.
Arguments text {Emb Rest} _.
Arguments embedding {Emb Rest} _.
Arguments rest {Emb Rest} _.

(** The attributes of a [TFIDFTextEncoder] instance. *)
Record TFIDFTextEncoder (V : Type) : Type := mkTFIDFTextEncoder {
  path_vectorizer : string;
  default_batch_size : Z;
  default_traversal_path : string;
  tfidf_vectorizer : V
}.
Arguments mkTFIDFTextEncoder {V} _ _ _ _.
Arguments path_vectorizer {V} _.
Arguments default_batch_size {V} _.
Arguments default_traversal_path {V} _.
Arguments tfidf_vectorizer {V} _.

(** The mutable state a request can see: the document objects, the executor
    object, and the arguments of every call made to the vectorizer's
    [transform] so far. *)
Record world (Emb Rest V : Type) : Type := mkWorld {
  objs : gmap ref (Document Emb Rest);
  executor : TFIDFTextEncoder V;
  calls : list (list (option string))
}.
Arguments mkWorld {Emb Rest V} _ _ _.
Arguments objs {Emb Rest V} _.
Arguments executor {Emb Rest V} _.
Arguments calls {Emb Rest V} _.

(** How a method ends. *)
Inductive outcome (A : Type) : Type :=
  | Returned (a : A)
  | Raised (e : exception).
Arguments Returned {A} _.
Arguments Raised {A} _.

(** [doc.embedding = e]. *)
Definition with_embedding {Emb Rest} (e : Emb) (d : Document Emb Rest) : Document Emb Rest :=
  mkDocument (text d) (Some e) (rest d).

(** [doc.text] of the object behind a reference. Every reference the host
    runtime hands over is to a live object; a reference to none reads as a
    document without text. *)
Definition text_of {Emb Rest} (h : gmap ref (Document Emb Rest)) (r : ref) : option string :=
  h !! r ≫= text.

(** [[d.text for d in document_batch]]. *)
Definition texts_of {Emb Rest} (h : gmap ref (Document Emb Rest)) (batch : list ref)
    : list (option string) :=
  text_of h <$> batch.

(** [doc.embedding] of the object behind a reference. *)
Definition embedding_of {Emb Rest} (h : gmap ref (Document Emb Rest)) (r : ref) : option Emb :=
  h !! r ≫= embedding.

(** The files of the model directory, by path. *)
Definition filesystem : Type := gmap string (list Byte.byte).

Module os_path.
Definition exists_ (fs : filesystem) (p : string) : bool :=
  bool_decide (is_Some (fs !! p)).
End os_path.

(** The bytes read from [open(p, 'rb')], for a path that exists. *)
Definition open_rb (fs : filesystem) (p : string) : list Byte.byte :=
  default [] (fs !! p).

Section Executor.

Context {Emb Rest V : Type}.

(** The fitted vectorizer's [transform(texts)]: one call, the rows of the
    returned matrix in iteration order. *)
Variable transform : V → list (option string) → list Emb.

(** The host runtime's [docs.traverse_flat(traversal_path)]. *)
Variable traverse_flat : gmap ref (Document Emb Rest) → list ref → value → list ref.

(** [pickle.load] on the content of a file. *)
Variable pickle_load : list Byte.byte → V.

Abbreviation heap := (gmap ref (Document Emb Rest)).
Abbreviation World := (world Emb Rest V).

(** *** The monad of methods *)

Definition M (A : Type) : Type := World → outcome A * World.

Definition ret {A} (a : A) : M A := λ w, (Returned a, w).

Definition raise {A} (e : exception) : M A := λ w, (Raised e, w).

Definition bind {A B} (m : M A) (k : A → M B) : M B :=
  λ w, match m w with
       | (Returned a, w') => k a w'
       | (Raised e, w') => (Raised e, w')
       end.

Notation "'do' x <- m ; k" := (bind m (λ x, k))
  (at level 10, x name, m at level 100, k at level 200, only parsing).

Definition get_objs : M heap := λ w, (Returned (objs w), w).

Definition get_self : M (TFIDFTextEncoder V) := λ w, (Returned (executor w), w).

(** [doc.embedding = e] through a reference. *)
Definition set_embedding (r : ref) (e : Emb) : M unit :=
  λ w, (Returned tt, mkWorld (alter (with_embedding e) r (objs w)) (executor w) (calls w)).

(** [self.tfidf_vectorizer.transform(texts)], recorded. *)
Definition call_transform (texts : list (option string)) : M (list Emb) :=
  λ w, (Returned (transform (tfidf_vectorizer (executor w)) texts),
        mkWorld (objs w) (executor w) (calls w ++ [texts])).

(** [for x in l: body(x)]. *)
Fixpoint for_each {A} (l : list A) (body : A → M unit) : M unit :=
  match l with
  | [] => ret tt
  | x :: l' => do u <- body x; for_each l' body
  end.

(** [for x in gen: body(x)]. *)
Definition for_gen {A} (gen : generator A) (body : A → M unit) : M unit :=
  match gen () with
  | inl e => raise e
  | inr l => for_each l body
  end.

(** *** The class *)

(** [TFIDFTextEncoder.__init__]: the attributes are set, then the file is
    looked for. The call to the base class's constructor is the host
    runtime's and is left out. *)
Definition __init__ (fs : filesystem) (path_vectorizer : string)
    (default_batch_size : Z) (default_traversal_path : string)
    : exception + TFIDFTextEncoder V :=
  if os_path.exists_ fs path_vectorizer then
    inr (mkTFIDFTextEncoder path_vectorizer default_batch_size
           default_traversal_path (pickle_load (open_rb fs path_vectorizer)))
  else
    inl (PretrainedModelFileDoesNotExist
           (path_vectorizer +:+ " not found, cannot find a fitted tfidf_vectorizer")).

(** [parameters.get('traversal_path', self.default_traversal_path)]. *)
Definition traversal_path_used (self : TFIDFTextEncoder V) (parameters : gmap string value) : value :=
  default (VStr (default_traversal_path self)) (parameters !! "traversal_path").

(** [parameters.get('batch_size', self.default_batch_size)]. *)
Definition batch_size_used (self : TFIDFTextEncoder V) (parameters : gmap string value) : value :=
  default (VInt (default_batch_size self)) (parameters !! "batch_size").

(** [[doc for doc in flat_docs if doc.text is not None]]. *)
Definition with_text (h : heap) (flat_docs : list ref) : list ref :=
  filter (λ r, is_Some (text_of h r)) flat_docs.

(** [TFIDFTextEncoder._get_input_data_generator]. *)
Definition _get_input_data_generator (docs : list ref) (parameters : gmap string value)
    : M (generator (list ref)) :=
  do self <- get_self;
  let traversal_path := traversal_path_used self parameters in
  let batch_size := batch_size_used self parameters in
  do h <- get_objs;
  let flat_docs := traverse_flat h docs traversal_path in
  let filtered_docs := with_text h flat_docs in
  ret (_batch_generator filtered_docs batch_size).

(** The body of the loop over batches in [_create_embeddings]. *)
Definition embed_batch (document_batch : list ref) : M unit :=
  do h <- get_objs;
  let iterable_of_texts := texts_of h document_batch in
  do embedding_matrix <- call_transform iterable_of_texts;
  for_each (zip document_batch embedding_matrix)
    (λ p, set_embedding p.1 p.2).

(** [TFIDFTextEncoder._create_embeddings]. *)
Definition _create_embeddings (document_batches_generator : generator (list ref)) : M unit :=
  for_gen document_batches_generator embed_batch.

(** Truth value of [docs] in [if docs:]. *)
Definition truthy (docs : option (list ref)) : bool :=
  match docs with
  | Some (_ :: _) => true
  | _ => false
  end.

(** [TFIDFTextEncoder.encode]. *)
Definition encode (docs : option (list ref)) (parameters : gmap string value) : M unit :=
  if truthy docs then
    do document_batches_generator <- _get_input_data_generator (default [] docs) parameters;
    _create_embeddings document_batches_generator
  else ret tt.

End Executor.

(** ** What a request writes, as a list *)

(** The assignments [doc.embedding = row] of a run, in program order. *)
Definition apply_writes {Emb Rest} (ws : list (ref * Emb))
    (h : gmap ref (Document Emb Rest)) : gmap ref (Document Emb Rest) :=
  foldl (λ acc p, alter (with_embedding p.2) p.1 acc) h ws.

(** The assignments made for a list of batches: each batch zipped with the
    rows [transform] returns for its texts. *)
Definition writes_of {Emb Rest} (t : list (option string) → list Emb)
    (h : gmap ref (Document Emb Rest)) (batches : list (list ref)) : list (ref * Emb) :=
  batches ≫= (λ batch, zip batch (t (texts_of h batch))).

(** The documents a request selects: traversed, then filtered on text. *)
Definition selected {Emb Rest V}
    (traverse_flat : gmap ref (Document Emb Rest) → list ref → value → list ref)
    (w : world Emb Rest V) (docs : option (list ref)) (parameters : gmap string value)
    : list ref :=
  with_text (objs w)
    (traverse_flat (objs w) (default [] docs) (traversal_path_used (executor w) parameters)).

(** A transform acts row-wise when each row is a function of the text at
    that row alone. *)
Definition row_wise {Emb} (t : list (option string) → list Emb) : Prop :=
  ∃ f : option string → Emb, ∀ texts, t texts = f <$> texts.

(** The request handled with all selected texts in a single batch: one call
    to [transform] on the texts of every selected document. *)
Definition encode_single_batch {Emb Rest V}
    (transform : V → list (option string) → list Emb)
    (traverse_flat : gmap ref (Document Emb Rest) → list ref → value → list ref)
    (docs : option (list ref)) (parameters : gmap string value) : M unit :=
  if truthy docs then
    λ w : world Emb Rest V, embed_batch transform (selected traverse_flat w docs parameters) w
  else ret tt.

(** The request handled with the traversal path and the batch size given
    outright instead of looked up. *)
Definition encode_with {Emb Rest V}
    (transform : V → list (option string) → list Emb)
    (traverse_flat : gmap ref (Document Emb Rest) → list ref → value → list ref)
    (traversal_path batch_size : value) (docs : option (list ref)) : M unit :=
  if truthy docs then
    λ w : world Emb Rest V,
      _create_embeddings transform
        (_batch_generator
           (with_text (objs w) (traverse_flat (objs w) (default [] docs) traversal_path))
           batch_size) w
  else ret tt.

(** ** A small concrete instance *)

Module Example.

(** A vectorizer whose row for a text is the text's length. *)
Definition transform (_ : unit) (texts : list (option string)) : list nat :=
  (λ t, match t with Some s => String.length s | None => 0 end) <$> texts.

(** The traversal that returns the root documents whatever the path. *)
Definition traverse_flat (_ : gmap ref (Document nat unit)) (docs : list ref)
    (_ : value) : list ref := docs.

Definition pickle_load (_ : list Byte.byte) : unit := tt.

(** Three documents: one with text, one without, one with empty text. *)
Definition documents : gmap ref (Document nat unit) :=
  <[0 := mkDocument (Some "tf"%string) None tt]>
    (<[1 := mkDocument None None tt]>
       (<[2 := mkDocument (Some EmptyString) None tt]> ∅)).

Definition encoder (batch_size : Z) : TFIDFTextEncoder unit :=
  mkTFIDFTextEncoder "model/tfidf_vectorizer.pickle"%string batch_size "r"%string tt.

Definition start (batch_size : Z) : world nat unit unit :=
  mkWorld documents (encoder batch_size) [].

(** The request's [docs]: the three documents, in order. *)
Definition roots : option (list ref) := Some [0; 1; 2].

Definition model_dir : filesystem :=
  <["model/tfidf_vectorizer.pickle"%string := [Byte.x80; Byte.x04]]> ∅.

End Example.

(** A vectorizer that returns a single row whatever it is given: the row
    of the first text. *)
Module Truncating.

Definition transform (v : unit) (texts : list (option string)) : list nat :=
  take 1 (Example.transform v texts).

End Truncating.

(** * Properties *)

(** ** The batch generator *)

Section Batching.

Context {A : Type}.
Implicit Types (data : list A) (b : Z) (k n : nat).

(** With a positive step, [range(0, n, b)] has ceil(n / b) elements. *)
Lemma range_length_bounds n b :
  (1 ≤ b)%Z →
  let N := Py.range_length 0 (Z.of_nat n) b in
  n ≤ N * Z.to_nat b ∧ (∀ k, S k < N → S k * Z.to_nat b ≤ n) ∧ (n = 0 → N = 0).
Proof.
  intros Hb. unfold Py.range_length.
  destruct (Z.ltb_spec 0 b) as [_|?]; [|lia].
  destruct (Z.ltb_spec 0 (Z.of_nat n)) as [Hn|Hn].
  - set (q := ((Z.of_nat n - 0 - 1) / b)%Z).
    assert (0 ≤ q)%Z as Hq0 by (apply Z.div_pos; lia).
    assert (b * q ≤ Z.of_nat n - 0 - 1)%Z as Hlo by (apply Z.mul_div_le; lia).
    assert (Z.of_nat n - 0 - 1 < b * Z.succ q)%Z as Hhi
      by (apply Z.mul_succ_div_gt; lia).
    split; [nia|]. split; [|lia]. intros k Hk. nia.
  - split; [lia|]. split; [lia|done].
Qed.

(** A slice starting at a multiple of the batch size is a [take] after a
    [drop]. *)
Lemma slice_chunk data b k :
  (1 ≤ b)%Z →
  Py.slice data (0 + Z.of_nat k * b) (0 + Z.of_nat k * b + b) =
    take (Z.to_nat b) (drop (k * Z.to_nat b) data).
Proof.
  intros Hb. unfold Py.slice, Py.slice_index.
  set (n := length data).
  destruct (Z.ltb_spec (0 + Z.of_nat k * b) 0) as [?|_]; [nia|].
  destruct (Z.ltb_spec (0 + Z.of_nat k * b + b) 0) as [?|_]; [nia|].
  destruct (decide (n ≤ k * Z.to_nat b)) as [Hge|Hlt].
  - rewrite (drop_ge data (k * Z.to_nat b)) by done.
    rewrite (drop_ge data) by (fold n; nia).
    by rewrite !take_nil.
  - replace (Z.to_nat (Z.min (0 + Z.of_nat k * b) (Z.of_nat n)))
      with (k * Z.to_nat b) by nia.
    destruct (decide ((k * Z.to_nat b + Z.to_nat b) ≤ n)) as [Hfull|Hpart].
    + f_equal. nia.
    + rewrite !take_ge; [done| |]; rewrite length_drop; fold n; nia.
Qed.

Lemma yield_slices_int data b (starts : list Z) :
  yield_slices data (VInt b) starts =
    inr ((λ i, Py.slice data i (i + b)) <$> starts).
Proof.
  induction starts as [|i starts IH]; [done|]. simpl. by rewrite IH.
Qed.

(** What the generator yields for a positive batch size. *)
Lemma _batch_generator_positive data b :
  (1 ≤ b)%Z →
  _batch_generator data (VInt b) () =
    inr ((λ k, take (Z.to_nat b) (drop (k * Z.to_nat b) data)) <$>
           seq 0 (Py.range_length 0 (Z.of_nat (length data)) b)).
Proof.
  intros Hb. unfold _batch_generator, Py.range. simpl.
  destruct (Z.eqb_spec b 0) as [?|_]; [lia|].
  rewrite yield_slices_int.
  f_equal. rewrite <- list_fmap_compose. apply list_fmap_ext.
  intros ? k ?. simpl. by apply slice_chunk.
Qed.

Lemma concat_chunks data (B N : nat) :
  concat ((λ k, take B (drop (k * B) data)) <$> seq 0 N) = take (N * B) data.
Proof.
  induction N as [|N IH]; [done|].
  rewrite seq_S, fmap_app, concat_app, IH. simpl.
  rewrite app_nil_r, take_take_drop. f_equal. lia.
Qed.

Lemma slice_subseteq (l : list A) (i j : Z) : Py.slice l i j ⊆ l.
Proof.
  unfold Py.slice. etrans; [apply subseteq_take|apply subseteq_drop].
Qed.

Lemma _batch_generator_subseteq data batch_size (chunks : list (list A)) (chunk : list A) :
  _batch_generator data batch_size () = inr chunks →
  chunk ∈ chunks → chunk ⊆ data.
Proof.
  unfold _batch_generator.
  destruct (Py.range _ _ _) as [e|starts] eqn:Hrange; [done|].
  destruct batch_size as [b|s]; [|done].
  rewrite yield_slices_int.
  intros [= <-] (i & -> & _)%list_elem_of_fmap. apply slice_subseteq.
Qed.

Lemma _batch_generator_concat data b :
  (1 ≤ b)%Z →
  ∃ chunks : list (list A),
    _batch_generator data (VInt b) () = inr chunks ∧ concat chunks = data.
Proof.
  intros Hb. eexists. split; [by apply _batch_generator_positive|].
  rewrite concat_chunks. apply take_ge.
  by destruct (range_length_bounds (length data) b Hb) as (Hcover & _).
Qed.

(** C9. For every list [data] and every integer [batch_size >= 1],
    iterating [_batch_generator(data, batch_size)] yields the consecutive
    slices [data[k*b : k*b + b]]: their concatenation is [data] in order,
    each has at most [batch_size] elements and all but possibly the last
    have exactly [batch_size]. The precondition is needed: with
    [batch_size = 0] creating the generator succeeds and iterating it
    raises [ValueError]. *)
Theorem batch_generator_partitions :
  (∀ data b, (1 ≤ b)%Z →
     ∃ batches : list (list A),
       _batch_generator data (VInt b) () = inr batches ∧
       concat batches = data ∧
       ∀ k batch, batches !! k = Some batch →
         batch = Py.slice data (Z.of_nat k * b) (Z.of_nat k * b + b) ∧
         (Z.of_nat (length batch) ≤ b)%Z ∧
         (S k < length batches → Z.of_nat (length batch) = b)) ∧
  (∀ data,
     _batch_generator data (VInt 0) () =
       inl (ValueError "range() arg 3 must not be zero")).
Proof.
  split; [|done].
  intros data b Hb.
  destruct (range_length_bounds (length data) b Hb) as (Hcover & Hfull & _).
  set (N := Py.range_length 0 (Z.of_nat (length data)) b) in *.
  eexists. split; [by apply _batch_generator_positive|]. fold N.
  split.
  - rewrite concat_chunks. by apply take_ge.
  - intros k batch Hk.
    rewrite list_lookup_fmap in Hk.
    destruct (seq 0 N !! k) as [k'|] eqn:Hseq; [|done].
    apply lookup_seq in Hseq as [-> HkN]. simpl in Hk.
    injection Hk as <-.
    split; [symmetry; by apply (slice_chunk data b k)|].
    rewrite length_take, length_drop. split; [lia|].
    rewrite length_fmap, length_seq. intros HSk.
    specialize (Hfull k HSk). lia.
Qed.

End Batching.

Section Proofs.

Context {Emb Rest V : Type}.
Variable transform : V → list (option string) → list Emb.
Variable traverse_flat : gmap ref (Document Emb Rest) → list ref → value → list ref.

Implicit Types (h : gmap ref (Document Emb Rest)) (w : world Emb Rest V).
Implicit Types (r : ref) (ws : list (ref * Emb)) (batch : list ref).
Implicit Types (batches : list (list ref)).

(** *** Writes leave everything but the embedding alone *)

Lemma lookup_with_embedding h r e r' :
  alter (with_embedding e) r h !! r' =
    if decide (r = r') then with_embedding e <$> h !! r' else h !! r'.
Proof.
  case_decide as Hr.
  - subst. apply lookup_alter_eq.
  - by apply lookup_alter_ne.
Qed.

Lemma text_alter h r e r' :
  text <$> (alter (with_embedding e) r h !! r') = text <$> (h !! r').
Proof.
  rewrite lookup_with_embedding. case_decide; [|done]. by destruct (h !! r').
Qed.

Lemma rest_alter h r e r' :
  rest <$> (alter (with_embedding e) r h !! r') = rest <$> (h !! r').
Proof.
  rewrite lookup_with_embedding. case_decide; [|done]. by destruct (h !! r').
Qed.

Lemma apply_writes_cons p ws h :
  apply_writes (p :: ws) h = apply_writes ws (alter (with_embedding p.2) p.1 h).
Proof. reflexivity. Qed.

Lemma apply_writes_app ws1 ws2 h :
  apply_writes (ws1 ++ ws2) h = apply_writes ws2 (apply_writes ws1 h).
Proof. apply foldl_app. Qed.

Lemma text_apply_writes ws h r :
  text <$> (apply_writes ws h !! r) = text <$> (h !! r).
Proof.
  revert h. induction ws as [|p ws IH]; intros h; [done|].
  rewrite apply_writes_cons, IH. apply text_alter.
Qed.

Lemma rest_apply_writes ws h r :
  rest <$> (apply_writes ws h !! r) = rest <$> (h !! r).
Proof.
  revert h. induction ws as [|p ws IH]; intros h; [done|].
  rewrite apply_writes_cons, IH. apply rest_alter.
Qed.

Lemma text_of_fmap h r : text_of h r = mjoin (text <$> (h !! r)).
Proof. unfold text_of. by destruct (h !! r). Qed.

Lemma text_of_apply_writes ws h r : text_of (apply_writes ws h) r = text_of h r.
Proof. by rewrite !text_of_fmap, text_apply_writes. Qed.

(** A reference no assignment names keeps its whole object. *)
Lemma apply_writes_untouched ws h r :
  r ∉ ws.*1 → apply_writes ws h !! r = h !! r.
Proof.
  revert h. induction ws as [|[r0 e] ws IH]; intros h Hr; [done|].
  rewrite fmap_cons, not_elem_of_cons in Hr. destruct Hr as [Hne Hr].
  rewrite apply_writes_cons, IH by done. simpl.
  rewrite lookup_with_embedding. by case_decide; [subst|].
Qed.

(** The last assignment to a live reference decides its embedding. *)
Lemma apply_writes_last ws1 ws2 r e h :
  is_Some (h !! r) → r ∉ ws2.*1 →
  embedding_of (apply_writes (ws1 ++ (r, e) :: ws2) h) r = Some e.
Proof.
  intros Hlive Hr. unfold embedding_of.
  rewrite apply_writes_app, apply_writes_cons, apply_writes_untouched by done.
  simpl. rewrite lookup_alter_eq.
  assert (is_Some (apply_writes ws1 h !! r)) as [d Hd].
  { apply fmap_is_Some with (f := text). rewrite text_apply_writes.
    by apply fmap_is_Some. }
  by rewrite Hd.
Qed.

(** Assignments of one value per reference: order and batching of the
    list do not matter beyond its elements' sequence. *)
Lemma texts_of_ext h1 h2 batch :
  (∀ r, text_of h1 r = text_of h2 r) → texts_of h1 batch = texts_of h2 batch.
Proof. intros Heq. apply list_fmap_ext. intros ? r ?. apply Heq. Qed.

Lemma writes_of_cons (t : list (option string) → list Emb) h batch batches :
  writes_of t h (batch :: batches) =
    zip batch (t (texts_of h batch)) ++ writes_of t h batches.
Proof. reflexivity. Qed.

Lemma writes_of_ext (t : list (option string) → list Emb) h1 h2 batches :
  (∀ r, text_of h1 r = text_of h2 r) →
  writes_of t h1 batches = writes_of t h2 batches.
Proof.
  intros Heq. unfold writes_of.
  induction batches as [|batch batches IH]; [done|].
  fold (writes_of t h1 (batch :: batches)) (writes_of t h2 (batch :: batches)).
  fold (writes_of t h1 batches) (writes_of t h2 batches) in IH.
  by rewrite !writes_of_cons, IH, (texts_of_ext h1 h2).
Qed.

(** *** Running the loops *)

Lemma for_each_set_embedding ws w :
  for_each ws (λ p, set_embedding p.1 p.2) w =
    (Returned tt, mkWorld (apply_writes ws (objs w)) (executor w) (calls w)).
Proof.
  revert w. induction ws as [|p ws IH]; intros w.
  - by destruct w.
  - simpl. unfold bind. simpl. by rewrite IH.
Qed.

Lemma embed_batch_run batch w :
  embed_batch transform batch w =
    (Returned tt,
     mkWorld
       (apply_writes
          (zip batch (transform (tfidf_vectorizer (executor w)) (texts_of (objs w) batch)))
          (objs w))
       (executor w)
       (calls w ++ [texts_of (objs w) batch])).
Proof.
  unfold embed_batch, bind, get_objs, call_transform. simpl.
  by rewrite for_each_set_embedding.
Qed.

Lemma for_each_embed_batch batches w :
  for_each batches (embed_batch transform) w =
    (Returned tt,
     mkWorld
       (apply_writes
          (writes_of (transform (tfidf_vectorizer (executor w))) (objs w) batches)
          (objs w))
       (executor w)
       (calls w ++ (texts_of (objs w) <$> batches))).
Proof.
  revert w. induction batches as [|batch batches IH]; intros w.
  - destruct w. simpl. by rewrite app_nil_r.
  - change (for_each (batch :: batches) (embed_batch transform) w)
      with (bind (embed_batch transform batch)
              (λ _, for_each batches (embed_batch transform)) w).
    unfold bind. rewrite embed_batch_run, IH. cbn [objs executor calls].
    set (ws0 := zip batch _).
    rewrite (writes_of_ext _ (apply_writes ws0 (objs w)) (objs w))
      by (intros; apply text_of_apply_writes).
    rewrite writes_of_cons. fold ws0. rewrite apply_writes_app.
    rewrite fmap_cons, <- app_assoc. cbn [app]. do 4 f_equal.
    apply list_fmap_ext. intros ? b ?. apply texts_of_ext.
    intros r. apply text_of_apply_writes.
Qed.

(** The whole of [encode] on a non-empty collection. *)
Lemma encode_run docs parameters w :
  truthy docs = true →
  encode transform traverse_flat docs parameters w =
    match _batch_generator (selected traverse_flat w docs parameters)
            (batch_size_used (executor w) parameters) () with
    | inl e => (Raised e, w)
    | inr batches =>
        (Returned tt,
         mkWorld
           (apply_writes
              (writes_of (transform (tfidf_vectorizer (executor w))) (objs w) batches)
              (objs w))
           (executor w)
           (calls w ++ (texts_of (objs w) <$> batches)))
    end.
Proof.
  intros Hdocs. unfold encode. rewrite Hdocs.
  unfold bind, _get_input_data_generator, bind, get_self, get_objs, ret. simpl.
  unfold _create_embeddings, for_gen, selected.
  destruct (_batch_generator _ _ ()) as [e|batches]; [done|].
  apply for_each_embed_batch.
Qed.


(** *** Where a reference is written last *)

Lemma last_occurrence batch r :
  r ∈ batch → ∃ i, batch !! i = Some r ∧ r ∉ drop (S i) batch.
Proof.
  induction batch as [|x batch IH]; [by intros ?%elem_of_nil|].
  intros Hin. destruct (decide (r ∈ batch)) as [Htail|Htail].
  - destruct (IH Htail) as (i & Hi & Hlast). by exists (S i).
  - apply elem_of_cons in Hin as [->|?]; [|done]. by exists 0.
Qed.

Lemma elem_of_concat {A} (ls : list (list A)) (x : A) :
  x ∈ concat ls ↔ ∃ l, l ∈ ls ∧ x ∈ l.
Proof.
  induction ls as [|l0 ls IH]; simpl.
  - split; [by intros ?%elem_of_nil|by intros (? & ?%elem_of_nil & _)].
  - rewrite elem_of_app, IH. split.
    + intros [?|(l & ? & ?)]; [exists l0|exists l]; by rewrite elem_of_cons; auto.
    + intros (l & [->|?]%elem_of_cons & ?); [by left|right; by exists l].
Qed.

Lemma last_occurrence_batches batches r :
  r ∈ concat batches →
  ∃ k batch i,
    batches !! k = Some batch ∧ batch !! i = Some r ∧
    (r ∉ drop (S i) batch) ∧ ∀ batch', batch' ∈ drop (S k) batches → r ∉ batch'.
Proof.
  induction batches as [|b0 batches IH]; [by intros ?%elem_of_nil|].
  simpl. intros Hin. destruct (decide (r ∈ concat batches)) as [Hlater|Hlater].
  - destruct (IH Hlater) as (k & batch & i & ? & ? & ? & ?).
    by exists (S k), batch, i.
  - apply elem_of_app in Hin as [Hin|?]; [|done].
    destruct (last_occurrence b0 r Hin) as (i & ? & ?).
    exists 0, b0, i. do 3 (split; [done|]).
    intros batch' Hb' Hr. apply Hlater. rewrite drop_0 in Hb'.
    apply elem_of_concat. by exists batch'.
Qed.

Lemma writes_of_app (t : list (option string) → list Emb) h batches1 batches2 :
  writes_of t h (batches1 ++ batches2) = writes_of t h batches1 ++ writes_of t h batches2.
Proof. apply bind_app. Qed.

Lemma writes_of_refs (t : list (option string) → list Emb) h batches r :
  r ∈ (writes_of t h batches).*1 → ∃ batch, batch ∈ batches ∧ r ∈ batch.
Proof.
  intros ([r' e] & -> & Hin)%list_elem_of_fmap.
  apply list_elem_of_bind in Hin as (batch & Hzip & Hbatch).
  exists batch. split; [done|]. by apply elem_of_zip_l in Hzip.
Qed.

(** The assignment made at the last place a reference occurs is the last
    assignment to it. *)
Lemma writes_of_last (t : list (option string) → list Emb) h batches k batch i r row :
  batches !! k = Some batch → batch !! i = Some r →
  t (texts_of h batch) !! i = Some row →
  r ∉ drop (S i) batch →
  (∀ batch', batch' ∈ drop (S k) batches → r ∉ batch') →
  ∃ ws1 ws2, writes_of t h batches = ws1 ++ (r, row) :: ws2 ∧ r ∉ ws2.*1.
Proof.
  intros Hk Hi Hrow Hin_batch Hlater.
  set (rows := t (texts_of h batch)) in *.
  assert (zip batch rows !! i = Some (r, row)) as Hzip.
  { apply lookup_zip_with_Some. by exists r, row. }
  exists (writes_of t h (take k batches) ++ take i (zip batch rows)),
    (drop (S i) (zip batch rows) ++ writes_of t h (drop (S k) batches)).
  split.
  - rewrite <- (take_drop_middle batches k batch Hk) at 1.
    rewrite writes_of_app, writes_of_cons. fold rows.
    rewrite <- (take_drop_middle (zip batch rows) i (r, row) Hzip) at 1.
    by rewrite <- !app_assoc.
  - rewrite fmap_app, not_elem_of_app. split.
    + intros ([r' e] & -> & Hin)%list_elem_of_fmap.
      rewrite zip_with_drop in Hin.
      apply elem_of_zip_l in Hin. done.
    + intros (batch' & Hb' & Hr)%writes_of_refs. by apply (Hlater batch').
Qed.

(** *** Batches hold selected documents only *)

Lemma selected_has_text docs parameters w r :
  r ∈ selected traverse_flat w docs parameters ↔
    is_Some (text_of (objs w) r) ∧
    r ∈ traverse_flat (objs w) (default [] docs)
          (traversal_path_used (executor w) parameters).
Proof. unfold selected, with_text. by rewrite list_elem_of_filter. Qed.

(** What any call to [encode] does to the world: it applies the
    assignments of some list of batches of selected documents. *)
Lemma encode_effect docs parameters w :
  ∃ batches,
    (encode transform traverse_flat docs parameters w).2 =
      mkWorld
        (apply_writes
           (writes_of (transform (tfidf_vectorizer (executor w))) (objs w) batches)
           (objs w))
        (executor w)
        (calls w ++ (texts_of (objs w) <$> batches)) ∧
    ∀ batch, batch ∈ batches → batch ⊆ selected traverse_flat w docs parameters.
Proof.
  destruct (truthy docs) eqn:Hdocs.
  - rewrite encode_run by done.
    destruct (_batch_generator _ _ ()) as [e|batches] eqn:Hgen.
    + exists []. split; [|by intros ? ?%elem_of_nil].
      destruct w. simpl. by rewrite app_nil_r.
    + exists batches. split; [done|].
      intros batch Hb. by eapply _batch_generator_subseteq.
  - exists []. split; [|by intros ? ?%elem_of_nil].
    unfold encode. rewrite Hdocs. destruct w. simpl. by rewrite app_nil_r.
Qed.


(** *** The constructor *)

Variable pickle_load : list Byte.byte → V.

Lemma init_outcome fs p bs tp :
  ((∃ msg, __init__ pickle_load fs p bs tp = inl (PretrainedModelFileDoesNotExist msg))
     ↔ fs !! p = None) ∧
  (∀ content, fs !! p = Some content →
     __init__ pickle_load fs p bs tp =
       inr (mkTFIDFTextEncoder p bs tp (pickle_load content))) ∧
  (∀ e, __init__ pickle_load fs p bs tp = inl e →
     os_path.exists_ fs p = false ∧
     e = PretrainedModelFileDoesNotExist
           (p +:+ " not found, cannot find a fitted tfidf_vectorizer")).
Proof.
  unfold __init__, os_path.exists_, open_rb.
  destruct (fs !! p) as [content|] eqn:Hfile.
  - rewrite bool_decide_eq_true_2 by eauto. simpl.
    split; [|split]; [|by intros ? [= <-]|done].
    split; [by intros [? ?]|done].
  - rewrite bool_decide_eq_false_2 by (by intros [? ?]).
    split; [|split]; [|done|by intros ? [= <-]].
    split; [done|eauto].
Qed.

Lemma encode_raises_from_range docs parameters w e :
  (encode transform traverse_flat docs parameters w).1 = Raised e →
  Py.range 0 (Z.of_nat (length (selected traverse_flat w docs parameters)))
    (batch_size_used (executor w) parameters) = inl e.
Proof.
  destruct (truthy docs) eqn:Hdocs.
  - rewrite encode_run by done. unfold _batch_generator.
    destruct (Py.range _ _ _) as [e'|starts] eqn:Hrange; [by intros [= ->]|].
    destruct (batch_size_used _ _) as [b|s]; [|done].
    by rewrite yield_slices_int.
  - unfold encode. by rewrite Hdocs.
Qed.

(** C3. The constructor raises [PretrainedModelFileDoesNotExist] exactly
    when no file exists at [path_vectorizer]; when the file exists the
    constructor succeeds and the vectorizer is the object deserialised
    from it. The constructor fails in no other way, and what [encode]
    raises is what [range] raises on the batch size: the component checks
    nothing else. *)
Theorem constructor_checks_existence fs p bs tp :
  ((∃ msg, __init__ pickle_load fs p bs tp = inl (PretrainedModelFileDoesNotExist msg))
     ↔ fs !! p = None) ∧
  (∀ content, fs !! p = Some content →
     __init__ pickle_load fs p bs tp =
       inr (mkTFIDFTextEncoder p bs tp (pickle_load content))) ∧
  (∀ e, __init__ pickle_load fs p bs tp = inl e →
     os_path.exists_ fs p = false ∧
     e = PretrainedModelFileDoesNotExist
           (p +:+ " not found, cannot find a fitted tfidf_vectorizer")) ∧
  (∀ docs parameters w e,
     (encode transform traverse_flat docs parameters w).1 = Raised e →
     Py.range 0 (Z.of_nat (length (selected traverse_flat w docs parameters)))
       (batch_size_used (executor w) parameters) = inl e).
Proof.
  destruct (init_outcome fs p bs tp) as (Hiff & Hok & Hfail).
  do 3 (split; [done|]). apply encode_raises_from_range.
Qed.

(** *** Requests *)

(** C8. When [docs] is [None] or an empty collection, [encode] returns
    without raising and leaves the documents, the executor and the record
    of [transform] calls as they were. *)
Theorem encode_without_docs parameters w :
  encode transform traverse_flat None parameters w = (Returned tt, w) ∧
  encode transform traverse_flat (Some []) parameters w = (Returned tt, w).
Proof. by split. Qed.

(** C6. The batch size and the traversal path a call to [encode] uses are
    the values under the keys ['batch_size'] and ['traversal_path'] of the
    request parameters when those keys are present, and the executor's
    [default_batch_size] and [default_traversal_path] otherwise. *)
Theorem request_parameters_override_defaults docs parameters w :
  batch_size_used (executor w) parameters =
    match parameters !! "batch_size"%string with
    | Some v => v
    | None => VInt (default_batch_size (executor w))
    end ∧
  traversal_path_used (executor w) parameters =
    match parameters !! "traversal_path"%string with
    | Some v => v
    | None => VStr (default_traversal_path (executor w))
    end ∧
  _get_input_data_generator traverse_flat (default [] docs) parameters w =
    (Returned
       (_batch_generator
          (with_text (objs w)
             (traverse_flat (objs w) (default [] docs)
                (traversal_path_used (executor w) parameters)))
          (batch_size_used (executor w) parameters)),
     w) ∧
  encode transform traverse_flat docs parameters w =
    encode_with transform traverse_flat
      (traversal_path_used (executor w) parameters)
      (batch_size_used (executor w) parameters) docs w.
Proof.
  split; [|split; [|split]].
  - unfold batch_size_used. by destruct (parameters !! _).
  - unfold traversal_path_used. by destruct (parameters !! _).
  - reflexivity.
  - unfold encode, encode_with. by destruct (truthy docs).
Qed.

(** C5. [encode] writes only the embedding field: the executor is the
    same object with the same attributes afterwards, no document appears
    or disappears, and every document keeps its text and every field
    other than the embedding. *)
Theorem encode_writes_embeddings_only docs parameters w :
  let w' := (encode transform traverse_flat docs parameters w).2 in
  executor w' = executor w ∧
  dom (objs w') = dom (objs w) ∧
  ∀ r, text <$> (objs w' !! r) = text <$> (objs w !! r) ∧
       rest <$> (objs w' !! r) = rest <$> (objs w !! r).
Proof.
  destruct (encode_effect docs parameters w) as (batches & -> & _). simpl.
  split; [done|]. split.
  - apply set_eq. intros r. rewrite !elem_of_dom.
    rewrite <- !(fmap_is_Some text). by rewrite text_apply_writes.
  - intros r. split; [apply text_apply_writes|apply rest_apply_writes].
Qed.

(** C2. A traversed document without text is skipped: its object is left
    as it was, embedding included, it is in none of the batches, and no
    batch of texts handed to [transform] holds a missing text. *)
Theorem encode_skips_documents_without_text docs parameters w r :
  r ∈ traverse_flat (objs w) (default [] docs)
        (traversal_path_used (executor w) parameters) →
  text_of (objs w) r = None →
  let w' := (encode transform traverse_flat docs parameters w).2 in
  objs w' !! r = objs w !! r ∧
  embedding_of (objs w') r = embedding_of (objs w) r ∧
  ∃ batches,
    calls w' = calls w ++ (texts_of (objs w) <$> batches) ∧
    (∀ batch, batch ∈ batches → r ∉ batch) ∧
    (∀ batch, batch ∈ batches → None ∉ texts_of (objs w) batch).
Proof.
  intros _ Hnone.
  destruct (encode_effect docs parameters w) as (batches & -> & Hsel). simpl.
  assert (∀ batch, batch ∈ batches → r ∉ batch) as Hout.
  { intros batch Hb Hr. apply Hsel in Hb. apply Hb in Hr.
    apply selected_has_text in Hr as [[s Hs] _]. congruence. }
  assert (apply_writes
            (writes_of (transform (tfidf_vectorizer (executor w))) (objs w) batches)
            (objs w) !! r = objs w !! r) as Hsame.
  { apply apply_writes_untouched.
    intros (batch & Hb & Hr)%writes_of_refs. by apply (Hout batch). }
  split; [done|]. split; [unfold embedding_of; by rewrite Hsame|].
  exists batches. split; [done|]. split; [done|].
  intros batch Hb (r' & Hr' & Hin)%list_elem_of_fmap.
  apply Hsel in Hb. apply Hb in Hin.
  apply selected_has_text in Hin as [[s Hs] _]. congruence.
Qed.


(** *** Which row a document receives *)

Lemma encode_last_row docs parameters w b batches k batch i r :
  truthy docs = true →
  batch_size_used (executor w) parameters = VInt b →
  (∀ texts, length (transform (tfidf_vectorizer (executor w)) texts) = length texts) →
  _batch_generator (selected traverse_flat w docs parameters) (VInt b) () = inr batches →
  batches !! k = Some batch → batch !! i = Some r →
  r ∉ drop (S i) batch →
  (∀ batch', batch' ∈ drop (S k) batches → r ∉ batch') →
  ∃ s row,
    text_of (objs w) r = Some s ∧
    texts_of (objs w) batch !! i = Some (Some s) ∧
    transform (tfidf_vectorizer (executor w)) (texts_of (objs w) batch) !! i = Some row ∧
    embedding_of (objs (encode transform traverse_flat docs parameters w).2) r = Some row.
Proof.
  intros Hdocs Hbs Hrows Hgen Hk Hi Hlast_i Hlast_k.
  assert (r ∈ selected traverse_flat w docs parameters) as Hsel.
  { eapply _batch_generator_subseteq; [done| |].
    - by eapply list_elem_of_lookup_2.
    - by eapply list_elem_of_lookup_2. }
  apply selected_has_text in Hsel as [[s Hs] _].
  destruct (lookup_lt_is_Some_2
              (transform (tfidf_vectorizer (executor w)) (texts_of (objs w) batch)) i)
    as [row Hrow].
  { rewrite Hrows. unfold texts_of. rewrite length_fmap.
    by eapply lookup_lt_Some. }
  exists s, row. split; [done|]. split.
  { unfold texts_of. by rewrite list_lookup_fmap, Hi, <- Hs. }
  split; [done|].
  rewrite encode_run, Hbs, Hgen by done. simpl.
  destruct (writes_of_last _ (objs w) batches k batch i r row Hk Hi Hrow Hlast_i Hlast_k)
    as (ws1 & ws2 & -> & Hws2).
  apply apply_writes_last; [|done].
  unfold text_of in Hs. by destruct (objs w !! r).
Qed.

(** C1, with the batch size in use at least 1. On a non-empty collection
    [encode] returns; the batches are the consecutive slices of the
    selected documents; [transform] is called once per batch, in order, on
    the batch's texts in the documents' order; and a document at position
    [i] of a batch ends with row [i] of that call's result as embedding,
    its last position deciding when it occurs more than once. Every
    selected document has text and receives such a row. *)
Theorem encode_embeds_selected_documents docs parameters w b :
  truthy docs = true →
  batch_size_used (executor w) parameters = VInt b →
  (1 ≤ b)%Z →
  (∀ texts, length (transform (tfidf_vectorizer (executor w)) texts) = length texts) →
  ∃ batches w',
    encode transform traverse_flat docs parameters w = (Returned tt, w') ∧
    _batch_generator (selected traverse_flat w docs parameters) (VInt b) () = inr batches ∧
    concat batches = selected traverse_flat w docs parameters ∧
    calls w' = calls w ++ (texts_of (objs w) <$> batches) ∧
    (∀ k batch i r,
       batches !! k = Some batch → batch !! i = Some r →
       r ∉ drop (S i) batch →
       (∀ batch', batch' ∈ drop (S k) batches → r ∉ batch') →
       ∃ s row,
         text_of (objs w) r = Some s ∧
         texts_of (objs w) batch !! i = Some (Some s) ∧
         transform (tfidf_vectorizer (executor w)) (texts_of (objs w) batch) !! i
           = Some row ∧
         embedding_of (objs w') r = Some row) ∧
    (∀ r, r ∈ selected traverse_flat w docs parameters →
       ∃ k batch i s row,
         batches !! k = Some batch ∧ batch !! i = Some r ∧
         text_of (objs w) r = Some s ∧
         transform (tfidf_vectorizer (executor w)) (texts_of (objs w) batch) !! i
           = Some row ∧
         embedding_of (objs w') r = Some row).
Proof.
  intros Hdocs Hbs Hb Hrows.
  destruct (_batch_generator_concat (selected traverse_flat w docs parameters) b Hb)
    as (batches & Hgen & Hconcat).
  exists batches, (encode transform traverse_flat docs parameters w).2.
  assert (∀ k batch i r,
       batches !! k = Some batch → batch !! i = Some r →
       r ∉ drop (S i) batch →
       (∀ batch', batch' ∈ drop (S k) batches → r ∉ batch') →
       ∃ s row,
         text_of (objs w) r = Some s ∧
         texts_of (objs w) batch !! i = Some (Some s) ∧
         transform (tfidf_vectorizer (executor w)) (texts_of (objs w) batch) !! i
           = Some row ∧
         embedding_of (objs (encode transform traverse_flat docs parameters w).2) r
           = Some row) as Hlast.
  { intros k batch i r ? ? ? ?. by eapply encode_last_row. }
  split; [by rewrite encode_run, Hbs, Hgen|].
  split; [done|]. split; [done|].
  split; [by rewrite encode_run, Hbs, Hgen|].
  split; [done|].
  intros r Hr. rewrite <- Hconcat in Hr.
  destruct (last_occurrence_batches batches r Hr) as (k & batch & i & Hk & Hi & Hli & Hlk).
  destruct (Hlast k batch i r Hk Hi Hli Hlk) as (s & row & ? & ? & ? & ?).
  by exists k, batch, i, s, row.
Qed.

(** C7, with the batch size in use at least 1. The filter keeps a
    traversed document whose text is the empty string; the document sits
    in a batch whose texts are handed to [transform] with the empty string
    at its position, and it ends with the row at that position as
    embedding, which for a row-wise [transform] is the row of the empty
    string. *)
Theorem empty_text_is_embedded docs parameters w b r :
  truthy docs = true →
  r ∈ traverse_flat (objs w) (default [] docs)
        (traversal_path_used (executor w) parameters) →
  text_of (objs w) r = Some EmptyString →
  batch_size_used (executor w) parameters = VInt b →
  (1 ≤ b)%Z →
  (∀ texts, length (transform (tfidf_vectorizer (executor w)) texts) = length texts) →
  r ∈ selected traverse_flat w docs parameters ∧
  ∃ batches w' k batch i row,
    encode transform traverse_flat docs parameters w = (Returned tt, w') ∧
    _batch_generator (selected traverse_flat w docs parameters) (VInt b) () = inr batches ∧
    batches !! k = Some batch ∧ batch !! i = Some r ∧
    texts_of (objs w) batch ∈ calls w' ∧
    texts_of (objs w) batch !! i = Some (Some EmptyString) ∧
    transform (tfidf_vectorizer (executor w)) (texts_of (objs w) batch) !! i = Some row ∧
    embedding_of (objs w') r = Some row ∧
    (∀ f, (∀ texts, transform (tfidf_vectorizer (executor w)) texts = f <$> texts) →
          row = f (Some EmptyString)).
Proof.
  intros Hdocs Htrav Htext Hbs Hb Hrows.
  assert (r ∈ selected traverse_flat w docs parameters) as Hsel.
  { apply selected_has_text. split; [by rewrite Htext|done]. }
  split; [done|].
  destruct (_batch_generator_concat (selected traverse_flat w docs parameters) b Hb)
    as (batches & Hgen & Hconcat).
  rewrite <- Hconcat in Hsel.
  destruct (last_occurrence_batches batches r Hsel)
    as (k & batch & i & Hk & Hi & Hli & Hlk).
  destruct (encode_last_row docs parameters w b batches k batch i r
              Hdocs Hbs Hrows Hgen Hk Hi Hli Hlk)
    as (s & row & Hs & Htexts & Hrow & Hemb).
  assert (s = EmptyString) as -> by congruence.
  exists batches, (encode transform traverse_flat docs parameters w).2, k, batch, i, row.
  split; [by rewrite encode_run, Hbs, Hgen|].
  do 3 (split; [done|]).
  split.
  { rewrite encode_run, Hbs, Hgen by done. simpl.
    apply elem_of_app. right. apply list_elem_of_fmap.
    exists batch. split; [done|]. by eapply list_elem_of_lookup_2. }
  do 3 (split; [done|]).
  intros f Hf. rewrite Hf, list_lookup_fmap, Htexts in Hrow. simpl in Hrow. congruence.
Qed.

(** *** Batching against a single batch *)

Lemma zip_row_wise (f : option string → Emb) h batch :
  zip batch (f <$> texts_of h batch) = (λ r, (r, f (text_of h r))) <$> batch.
Proof.
  induction batch as [|r batch IH]; [done|].
  unfold texts_of in *. rewrite !fmap_cons. simpl. by rewrite IH.
Qed.

Lemma writes_of_row_wise (t : list (option string) → list Emb) f h batches :
  (∀ texts, t texts = f <$> texts) →
  writes_of t h batches = (λ r, (r, f (text_of h r))) <$> concat batches.
Proof.
  intros Hf. induction batches as [|batch batches IH]; [done|].
  rewrite writes_of_cons, IH, Hf, zip_row_wise. simpl. by rewrite fmap_app.
Qed.

(** C4. With a batch size of at least 1 and a [transform] that acts
    row-wise, [encode] returns and leaves every document, and so every
    selected document's embedding, as handling all selected texts in a
    single batch would. *)
Theorem batching_does_not_change_embeddings docs parameters w b :
  batch_size_used (executor w) parameters = VInt b →
  (1 ≤ b)%Z →
  row_wise (transform (tfidf_vectorizer (executor w))) →
  let batched := encode transform traverse_flat docs parameters w in
  let single := encode_single_batch transform traverse_flat docs parameters w in
  batched.1 = Returned tt ∧
  objs batched.2 = objs single.2 ∧
  ∀ r, r ∈ selected traverse_flat w docs parameters →
       embedding_of (objs batched.2) r = embedding_of (objs single.2) r.
Proof.
  intros Hbs Hb [f Hf]. simpl.
  assert (objs (encode transform traverse_flat docs parameters w).2 =
          objs (encode_single_batch transform traverse_flat docs parameters w).2) as Hobjs.
  { unfold encode_single_batch. destruct (truthy docs) eqn:Hdocs.
    - destruct (_batch_generator_concat (selected traverse_flat w docs parameters) b Hb)
        as (batches & Hgen & Hconcat).
      rewrite encode_run, Hbs, Hgen, embed_batch_run by done. simpl.
      rewrite (writes_of_row_wise _ f) by done.
      by rewrite Hconcat, Hf, zip_row_wise.
    - unfold encode. by rewrite Hdocs. }
  split; [|split; [done|by intros r _; rewrite Hobjs]].
  destruct (truthy docs) eqn:Hdocs.
  - destruct (_batch_generator_concat (selected traverse_flat w docs parameters) b Hb)
      as (batches & Hgen & Hconcat).
    by rewrite encode_run, Hbs, Hgen.
  - unfold encode. by rewrite Hdocs.
Qed.

End Proofs.

(** * The properties on the concrete instance *)

Section Runs.

Import Example.

(** Batches of two: one call on both texts, row 0 to document 0 and row 1
    to document 2; the document without text is passed over. *)
Example encode_in_batches_of_two :
  let out := encode transform traverse_flat roots ∅ (start 2) in
  out.1 = Returned tt ∧
  calls out.2 = [[Some "tf"%string; Some EmptyString]] ∧
  embedding_of (objs out.2) 0 = Some 2 ∧
  embedding_of (objs out.2) 1 = None ∧
  embedding_of (objs out.2) 2 = Some 0.
Proof. vm_compute. done. Qed.

(** Batches of one, asked for by the request: two calls. *)
Example encode_in_batches_of_one :
  let out := encode transform traverse_flat roots {["batch_size"%string := VInt 1]} (start 2) in
  out.1 = Returned tt ∧
  calls out.2 = [[Some "tf"%string]; [Some EmptyString]] ∧
  embedding_of (objs out.2) 0 = Some 2 ∧
  embedding_of (objs out.2) 2 = Some 0.
Proof. vm_compute. done. Qed.

(** A batch size of zero: the request raises before anything is written. *)
Example encode_with_batch_size_zero :
  encode transform traverse_flat roots ∅ (start 0) =
    (Raised (ValueError "range() arg 3 must not be zero"), start 0).
Proof. reflexivity. Qed.

Example batches_of_five_by_two :
  _batch_generator [1; 2; 3; 4; 5] (VInt 2) () = inr [[1; 2]; [3; 4]; [5]].
Proof. reflexivity. Qed.


Lemma transform_one_row_per_text v texts :
  length (transform v texts) = length texts.
Proof. apply length_fmap. Qed.

Lemma transform_row_wise v : row_wise (transform v).
Proof. by eexists. Qed.

Lemma batch_generator_partitions_witness :
  (1 ≤ 2)%Z ∧
  ∃ batches : list (list nat),
    _batch_generator [1; 2; 3; 4; 5] (VInt 2) () = inr batches ∧
    concat batches = [1; 2; 3; 4; 5] ∧
    ∀ k batch, batches !! k = Some batch →
      batch = Py.slice [1; 2; 3; 4; 5] (Z.of_nat k * 2) (Z.of_nat k * 2 + 2) ∧
      (Z.of_nat (length batch) ≤ 2)%Z ∧
      (S k < length batches → Z.of_nat (length batch) = 2%Z).
Proof.
  split; [lia|]. apply (proj1 (@batch_generator_partitions nat)). lia.
Defined.

Lemma constructor_checks_existence_witness :
  model_dir !! "model/tfidf_vectorizer.pickle"%string = Some [Byte.x80; Byte.x04] ∧
  __init__ pickle_load model_dir "model/tfidf_vectorizer.pickle"%string 2048 "r"%string =
    inr (encoder 2048).
Proof.
  split; [reflexivity|].
  apply (proj1 (proj2 (constructor_checks_existence transform traverse_flat pickle_load model_dir
                         "model/tfidf_vectorizer.pickle"%string 2048 "r"%string))
           [Byte.x80; Byte.x04]).
  reflexivity.
Defined.

Lemma encode_skips_documents_without_text_witness :
  let w' := (encode transform traverse_flat roots ∅ (start 2)).2 in
  objs w' !! 1 = objs (start 2) !! 1 ∧
  embedding_of (objs w') 1 = embedding_of (objs (start 2)) 1 ∧
  ∃ batches,
    calls w' = calls (start 2) ++ (texts_of (objs (start 2)) <$> batches) ∧
    (∀ batch, batch ∈ batches → 1 ∉ batch) ∧
    (∀ batch, batch ∈ batches → None ∉ texts_of (objs (start 2)) batch).
Proof.
  apply (encode_skips_documents_without_text transform traverse_flat roots ∅ (start 2) 1).
  - vm_compute. apply list_elem_of_In. simpl. auto.
  - reflexivity.
Defined.

Lemma encode_embeds_selected_documents_witness :
  ∃ batches w',
    encode transform traverse_flat roots ∅ (start 2) = (Returned tt, w') ∧
    _batch_generator (selected traverse_flat (start 2) roots ∅) (VInt 2) () = inr batches ∧
    concat batches = selected traverse_flat (start 2) roots ∅ ∧
    calls w' = calls (start 2) ++ (texts_of (objs (start 2)) <$> batches) ∧
    (∀ k batch i r,
       batches !! k = Some batch → batch !! i = Some r →
       r ∉ drop (S i) batch →
       (∀ batch', batch' ∈ drop (S k) batches → r ∉ batch') →
       ∃ s row,
         text_of (objs (start 2)) r = Some s ∧
         texts_of (objs (start 2)) batch !! i = Some (Some s) ∧
         transform (tfidf_vectorizer (executor (start 2)))
           (texts_of (objs (start 2)) batch) !! i = Some row ∧
         embedding_of (objs w') r = Some row) ∧
    (∀ r, r ∈ selected traverse_flat (start 2) roots ∅ →
       ∃ k batch i s row,
         batches !! k = Some batch ∧ batch !! i = Some r ∧
         text_of (objs (start 2)) r = Some s ∧
         transform (tfidf_vectorizer (executor (start 2)))
           (texts_of (objs (start 2)) batch) !! i = Some row ∧
         embedding_of (objs w') r = Some row).
Proof.
  apply (encode_embeds_selected_documents transform traverse_flat roots ∅ (start 2) 2).
  - reflexivity.
  - reflexivity.
  - lia.
  - apply transform_one_row_per_text.
Defined.

Lemma empty_text_is_embedded_witness :
  2 ∈ selected traverse_flat (start 2) roots ∅ ∧
  ∃ batches w' k batch i row,
    encode transform traverse_flat roots ∅ (start 2) = (Returned tt, w') ∧
    _batch_generator (selected traverse_flat (start 2) roots ∅) (VInt 2) () = inr batches ∧
    batches !! k = Some batch ∧ batch !! i = Some 2 ∧
    texts_of (objs (start 2)) batch ∈ calls w' ∧
    texts_of (objs (start 2)) batch !! i = Some (Some EmptyString) ∧
    transform (tfidf_vectorizer (executor (start 2)))
      (texts_of (objs (start 2)) batch) !! i = Some row ∧
    embedding_of (objs w') 2 = Some row ∧
    (∀ f, (∀ texts, transform (tfidf_vectorizer (executor (start 2))) texts = f <$> texts) →
          row = f (Some EmptyString)).
Proof.
  apply (empty_text_is_embedded transform traverse_flat roots ∅ (start 2) 2 2).
  - reflexivity.
  - vm_compute. apply list_elem_of_In. simpl. auto.
  - reflexivity.
  - reflexivity.
  - lia.
  - apply transform_one_row_per_text.
Defined.

Lemma batching_does_not_change_embeddings_witness :
  let batched := encode transform traverse_flat roots ∅ (start 2) in
  let single := encode_single_batch transform traverse_flat roots ∅ (start 2) in
  batched.1 = Returned tt ∧
  objs batched.2 = objs single.2 ∧
  ∀ r, r ∈ selected traverse_flat (start 2) roots ∅ →
       embedding_of (objs batched.2) r = embedding_of (objs single.2) r.
Proof.
  apply (batching_does_not_change_embeddings transform traverse_flat roots ∅ (start 2) 2).
  - reflexivity.
  - lia.
  - apply transform_row_wise.
Defined.

(** With a negative batch size [range] is empty: [encode] returns, no
    batch is formed, and a selected document with text has no embedding. *)
Lemma negative_default_batch_size_embeds_nothing :
  let w := start (-1) in
  let out := encode transform traverse_flat roots ∅ w in
  truthy roots = true ∧
  batch_size_used (executor w) ∅ = VInt (-1) ∧
  selected traverse_flat w roots ∅ = [0; 2] ∧
  text_of (objs w) 0 = Some "tf"%string ∧
  out = (Returned tt, w) ∧
  embedding_of (objs out.2) 0 = None.
Proof. vm_compute. done. Qed.

(** The same through the request: a negative ['batch_size'] leaves the
    document with empty text out of every batch and without embedding. *)
Lemma negative_requested_batch_size_skips_empty_text :
  let w := start 2048 in
  let parameters : gmap string value := {["batch_size"%string := VInt (-2)]} in
  let out := encode transform traverse_flat roots parameters w in
  truthy roots = true ∧
  2 ∈ traverse_flat (objs w) (default [] roots) (traversal_path_used (executor w) parameters) ∧
  text_of (objs w) 2 = Some EmptyString ∧
  batch_size_used (executor w) parameters = VInt (-2) ∧
  out.1 = Returned tt ∧
  calls out.2 = [] ∧
  embedding_of (objs out.2) 2 = None.
Proof.
  vm_compute. split; [done|]. split; [|done].
  apply list_elem_of_In. simpl. auto.
Qed.

End Runs.

(** * Further properties of the batch generator *)

Section BatchingShape.

Context {A : Type}.
Implicit Types (data : list A) (b : Z) (k n : nat).

(** [range] fails on a zero step and on a step that is no integer, and
    on nothing else. *)
Lemma range_fails_iff (start stop : Z) (step : value) (e : exception) :
  Py.range start stop step = inl e ↔
    (step = VInt 0 ∧ e = ValueError "range() arg 3 must not be zero") ∨
    (∃ s, step = VStr s ∧
          e = TypeError "'str' object cannot be interpreted as an integer").
Proof.
  destruct step as [b|s]; unfold Py.range; simpl.
  - destruct (Z.eqb_spec b 0) as [->|Hb].
    + split; [intros [= <-]; by left|].
      intros [[_ ->]|(s & ? & _)]; done.
    + split; [done|]. intros [[[= ->] _]|(s & ? & _)]; done.
  - split; [intros [= <-]; right; by exists s|].
    intros [[? _]|(s' & _ & ->)]; done.
Qed.

Lemma range_length_count n b :
  (1 ≤ b)%Z →
  Z.of_nat (Py.range_length 0 (Z.of_nat n) b) = ((Z.of_nat n + b - 1) / b)%Z.
Proof.
  intros Hb. unfold Py.range_length.
  destruct (Z.ltb_spec 0 b) as [_|?]; [|lia].
  destruct (Z.ltb_spec 0 (Z.of_nat n)) as [Hn|Hn].
  - rewrite Z2Nat.id by (apply Z.add_nonneg_nonneg; [apply Z.div_pos|]; lia).
    replace (Z.of_nat n + b - 1)%Z with (Z.of_nat n - 0 - 1 + 1 * b)%Z by lia.
    rewrite Z.div_add by lia. done.
  - replace (Z.of_nat n) with 0%Z by lia. simpl.
    symmetry. apply Z.div_small. lia.
Qed.

(** Every start of the range lies inside the data. *)
Lemma range_length_strict n b k :
  (1 ≤ b)%Z → k < Py.range_length 0 (Z.of_nat n) b → k * Z.to_nat b < n.
Proof.
  intros Hb. unfold Py.range_length.
  destruct (Z.ltb_spec 0 b) as [_|?]; [|lia].
  destruct (Z.ltb_spec 0 (Z.of_nat n)) as [Hn|Hn]; [|lia].
  set (q := ((Z.of_nat n - 0 - 1) / b)%Z).
  assert (0 ≤ q)%Z as Hq0 by (apply Z.div_pos; lia).
  assert (b * q ≤ Z.of_nat n - 0 - 1)%Z as Hlo by (apply Z.mul_div_le; lia).
  intros Hk. nia.
Qed.

Lemma chunk_nonempty data (B k : nat) :
  1 ≤ B → k * B < length data → take B (drop (k * B) data) ≠ [].
Proof.
  intros HB Hk Hnil. apply (f_equal length) in Hnil.
  rewrite length_take, length_drop in Hnil. simpl in Hnil. lia.
Qed.

Lemma _batch_generator_negative data b :
  (b < 0)%Z → _batch_generator data (VInt b) () = inr [].
Proof.
  intros Hb. unfold _batch_generator, Py.range, Py.range_length. simpl.
  destruct (Z.eqb_spec b 0) as [?|_]; [lia|].
  destruct (Z.ltb_spec 0 b) as [?|_]; [lia|].
  by destruct (Z.ltb_spec (Z.of_nat (length data)) 0) as [?|_]; [lia|].
Qed.

Lemma _batch_generator_single data b :
  data ≠ [] → (Z.of_nat (length data) ≤ b)%Z →
  _batch_generator data (VInt b) () = inr [data].
Proof.
  intros Hdata Hlen.
  assert (0 < length data) as Hpos by (destruct data; [done|simpl; lia]).
  rewrite _batch_generator_positive by lia.
  destruct (range_length_bounds (length data) b) as (Hcover & _ & _); [lia|].
  set (N := Py.range_length 0 (Z.of_nat (length data)) b) in *.
  assert (N = 1) as ->.
  { destruct N as [|[|N']] eqn:HN; [lia|done|].
    pose proof (range_length_strict (length data) b (S N')) as Hstrict.
    fold N in Hstrict. rewrite HN in Hstrict. specialize (Hstrict ltac:(lia) ltac:(lia)).
    nia. }
  simpl. rewrite drop_0, take_ge by lia. done.
Qed.

(** Whatever the batch size, a batch that is yielded is not empty. *)
Lemma _batch_generator_nonempty data (batch_size : value) (chunks : list (list A)) :
  _batch_generator data batch_size () = inr chunks →
  Forall (λ chunk, chunk ≠ []) chunks.
Proof.
  destruct batch_size as [b|s]; [|done].
  destruct (decide (1 ≤ b)%Z) as [Hpos|Hnonpos].
  - rewrite _batch_generator_positive by done. intros [= <-].
    apply Forall_fmap, Forall_forall. intros k [_ Hk]%elem_of_seq. simpl in *.
    apply chunk_nonempty; [lia|]. by apply range_length_strict.
  - destruct (decide (b = 0%Z)) as [->|Hnz]; [done|].
    rewrite _batch_generator_negative by lia. by intros [= <-].
Qed.

Lemma _batch_generator_nil (batch_size : value) (chunks : list (list A)) :
  _batch_generator (@nil A) batch_size () = inr chunks → chunks = [].
Proof.
  destruct batch_size as [b|s]; [|done].
  unfold _batch_generator, Py.range, Py.range_length. simpl.
  destruct (Z.eqb_spec b 0) as [?|_]; [done|].
  destruct (Z.ltb_spec 0 b); simpl; by intros [= <-].
Qed.

(** X1. Iterating [_batch_generator(data, batch_size)] raises exactly when
    the batch size is zero ([ValueError]) or is no integer ([TypeError]);
    with a negative batch size it raises nothing and yields no batch. *)
Theorem batch_generator_bad_sizes data :
  (∀ batch_size e,
     _batch_generator data batch_size () = inl e ↔
       (batch_size = VInt 0 ∧ e = ValueError "range() arg 3 must not be zero") ∨
       (∃ s, batch_size = VStr s ∧
             e = TypeError "'str' object cannot be interpreted as an integer")) ∧
  (∀ b, (b < 0)%Z → _batch_generator data (VInt b) () = inr []).
Proof.
  split; [|apply _batch_generator_negative].
  intros batch_size e.
  rewrite <- (range_fails_iff 0 (Z.of_nat (length data)) batch_size e).
  unfold _batch_generator.
  destruct (Py.range _ _ _) as [e'|starts] eqn:Hrange; [split; by intros [= ->]|].
  destruct batch_size as [b|s]; [|done].
  rewrite yield_slices_int. split; intros [=].
Qed.

(** X2. For a batch size [b >= 1] the generator yields ceil(len(data) / b)
    batches, none of them empty: no batch for empty data, and the single
    batch [data] when [data] is non-empty and no longer than [b]. *)
Theorem batch_generator_count data b :
  (1 ≤ b)%Z →
  ∃ batches : list (list A),
    _batch_generator data (VInt b) () = inr batches ∧
    Z.of_nat (length batches) = ((Z.of_nat (length data) + b - 1) / b)%Z ∧
    Forall (λ batch, batch ≠ []) batches ∧
    (data = [] → batches = []) ∧
    (data ≠ [] → (Z.of_nat (length data) ≤ b)%Z → batches = [data]).
Proof.
  intros Hb.
  destruct (_batch_generator_concat data b Hb) as (batches & Hgen & Hconcat).
  exists batches. split; [done|]. split; [|split; [|split]].
  - rewrite _batch_generator_positive in Hgen by done. injection Hgen as <-.
    rewrite length_fmap, length_seq. by apply range_length_count.
  - by eapply _batch_generator_nonempty.
  - intros ->. by eapply _batch_generator_nil.
  - intros Hdata Hlen. rewrite _batch_generator_single in Hgen by done. congruence.
Qed.

End BatchingShape.

(** * Further properties of requests *)

Section Requests.

Context {Emb Rest V : Type}.
Variable transform : V → list (option string) → list Emb.
Variable traverse_flat : gmap ref (Document Emb Rest) → list ref → value → list ref.

Implicit Types (h : gmap ref (Document Emb Rest)) (w : world Emb Rest V).
Implicit Types (r : ref) (ws : list (ref * Emb)) (batch : list ref).
Implicit Types (batches : list (list ref)).

Lemma world_eta w : mkWorld (objs w) (executor w) (calls w ++ []) = w.
Proof. destruct w. simpl. by rewrite app_nil_r. Qed.

Lemma concat_texts_of h batches :
  concat (texts_of h <$> batches) = texts_of h (concat batches).
Proof.
  induction batches as [|batch batches IH]; [done|].
  rewrite fmap_cons. simpl. rewrite IH. unfold texts_of. by rewrite fmap_app.
Qed.

(** Where an assignment comes from: a position of a batch that has a row. *)
Lemma writes_of_positions (t : list (option string) → list Emb) h batches r :
  r ∈ (writes_of t h batches).*1 →
  ∃ k batch i,
    batches !! k = Some batch ∧ batch !! i = Some r ∧
    i < length (t (texts_of h batch)).
Proof.
  intros ([r' e] & -> & Hin)%list_elem_of_fmap.
  apply list_elem_of_bind in Hin as (batch & Hzip & Hbatch).
  apply list_elem_of_lookup in Hbatch as [k Hk].
  apply list_elem_of_lookup in Hzip as [i Hi].
  apply lookup_zip_with_Some in Hi as (r0 & e0 & [= -> ->] & Hr & He).
  exists k, batch, i. split; [done|]. split; [done|]. by eapply lookup_lt_Some.
Qed.

Lemma with_embedding_agree (o1 o2 : option (Document Emb Rest)) (e : Emb) :
  text <$> o1 = text <$> o2 → rest <$> o1 = rest <$> o2 →
  with_embedding e <$> o1 = with_embedding e <$> o2.
Proof.
  destruct o1 as [[t1 e1 x1]|], o2 as [[t2 e2 x2]|]; simpl; try done.
  by intros [= ->] [= ->].
Qed.

(** Stores that agree on everything but embeddings agree, after the same
    assignments, on every reference assigned to. *)
Lemma apply_writes_agree ws h1 h2 r :
  text <$> (h1 !! r) = text <$> (h2 !! r) →
  rest <$> (h1 !! r) = rest <$> (h2 !! r) →
  r ∈ ws.*1 →
  apply_writes ws h1 !! r = apply_writes ws h2 !! r.
Proof.
  revert h1 h2. induction ws as [|[r0 e] ws IH]; intros h1 h2 Ht Hr Hin.
  { by apply elem_of_nil in Hin. }
  rewrite !apply_writes_cons. simpl.
  destruct (decide (r ∈ ws.*1)) as [Hlater|Hlater].
  - apply IH; [by rewrite !text_alter|by rewrite !rest_alter|done].
  - rewrite fmap_cons in Hin. apply elem_of_cons in Hin as [->|?]; [|done].
    rewrite !apply_writes_untouched by done. rewrite !lookup_alter_eq.
    by apply with_embedding_agree.
Qed.

Lemma apply_writes_twice ws h :
  apply_writes ws (apply_writes ws h) = apply_writes ws h.
Proof.
  apply map_eq. intros r. destruct (decide (r ∈ ws.*1)) as [Hin|Hout].
  - apply apply_writes_agree; [apply text_apply_writes|apply rest_apply_writes|done].
  - by rewrite apply_writes_untouched.
Qed.

(** X3. [encode] raises exactly when [docs] is non-empty and the batch size
    in use is zero ([ValueError]) or no integer ([TypeError]); and a request
    that raises has written nothing and called [transform] on nothing. *)
Theorem encode_raises_only_on_batch_size docs parameters w e :
  ((encode transform traverse_flat docs parameters w).1 = Raised e ↔
     truthy docs = true ∧
     ((batch_size_used (executor w) parameters = VInt 0 ∧
       e = ValueError "range() arg 3 must not be zero") ∨
      (∃ s, batch_size_used (executor w) parameters = VStr s ∧
            e = TypeError "'str' object cannot be interpreted as an integer"))) ∧
  ((encode transform traverse_flat docs parameters w).1 = Raised e →
   (encode transform traverse_flat docs parameters w).2 = w).
Proof.
  destruct (truthy docs) eqn:Hdocs.
  - rewrite encode_run by done.
    rewrite <- (range_fails_iff 0
      (Z.of_nat (length (selected traverse_flat w docs parameters)))
      (batch_size_used (executor w) parameters) e).
    unfold _batch_generator.
    destruct (Py.range _ _ _) as [e'|starts] eqn:Hrange.
    + simpl. split; [|done]. split; [by intros [= ->]|by intros [_ [= ->]]].
    + destruct (batch_size_used _ _) as [b|s]; [|done].
      rewrite yield_slices_int. simpl. split; [|done].
      split; [done|by intros [_ [=]]].
  - unfold encode. rewrite Hdocs. simpl. split; [|done].
    split; [done|by intros [[=] _]].
Qed.


(** X5. With a batch size of at least 1, the texts handed to [transform],
    call after call, are the texts of the selected documents, each once and
    in the documents' order, in ceil(n / b) calls for n selected
    documents. *)
Theorem encode_hands_over_each_text_once docs parameters w b :
  truthy docs = true →
  batch_size_used (executor w) parameters = VInt b →
  (1 ≤ b)%Z →
  ∃ new,
    calls (encode transform traverse_flat docs parameters w).2 = calls w ++ new ∧
    concat new = texts_of (objs w) (selected traverse_flat w docs parameters) ∧
    Z.of_nat (length new) =
      ((Z.of_nat (length (selected traverse_flat w docs parameters)) + b - 1) / b)%Z.
Proof.
  intros Hdocs Hbs Hb.
  destruct (_batch_generator_concat (selected traverse_flat w docs parameters) b Hb)
    as (batches & Hgen & Hconcat).
  exists (texts_of (objs w) <$> batches).
  split; [by rewrite encode_run, Hbs, Hgen|].
  split; [by rewrite concat_texts_of, Hconcat|].
  rewrite _batch_generator_positive in Hgen by done. injection Hgen as <-.
  rewrite !length_fmap, length_seq. by apply range_length_count.
Qed.

(** X6. Whatever the batch size, [transform] is never called on an empty
    list of texts; and when no traversed document has text the request
    changes nothing and calls [transform] not at all. *)
Theorem encode_never_transforms_nothing docs parameters w :
  (∃ new,
     calls (encode transform traverse_flat docs parameters w).2 = calls w ++ new ∧
     Forall (λ texts, texts ≠ []) new) ∧
  (selected traverse_flat w docs parameters = [] →
   (encode transform traverse_flat docs parameters w).2 = w).
Proof.
  destruct (truthy docs) eqn:Hdocs.
  - rewrite encode_run by done.
    destruct (_batch_generator _ _ ()) as [e|batches] eqn:Hgen; simpl.
    + split; [|done]. exists []. by rewrite app_nil_r.
    + split.
      * exists (texts_of (objs w) <$> batches). split; [done|].
        apply Forall_fmap. eapply Forall_impl; [by eapply _batch_generator_nonempty|].
        intros batch Hne Hnil. by apply fmap_nil_inv in Hnil.
      * intros Hnone. rewrite Hnone in Hgen.
        apply _batch_generator_nil in Hgen as ->. apply world_eta.
  - unfold encode. rewrite Hdocs. simpl. split; [|done].
    exists []. by rewrite app_nil_r.
Qed.

(** X7. Encoding twice is encoding once, for a traversal that does not read
    embeddings: the second request ends as the first did and leaves every
    document as the first left it. *)
Theorem encode_twice docs parameters w :
  (∀ h1 h2 ds path,
     (∀ r, text <$> (h1 !! r) = text <$> (h2 !! r) ∧
           rest <$> (h1 !! r) = rest <$> (h2 !! r)) →
     traverse_flat h1 ds path = traverse_flat h2 ds path) →
  let once := encode transform traverse_flat docs parameters w in
  let twice := encode transform traverse_flat docs parameters once.2 in
  twice.1 = once.1 ∧ objs twice.2 = objs once.2 ∧ executor twice.2 = executor w.
Proof.
  intros Htrav. simpl.
  destruct (truthy docs) eqn:Hdocs; [|unfold encode; by rewrite Hdocs].
  rewrite (encode_run _ _ docs parameters w) by done.
  destruct (_batch_generator _ _ ()) as [e|batches] eqn:Hgen; simpl.
  { by rewrite encode_run, Hgen. }
  set (ws := writes_of (transform (tfidf_vectorizer (executor w))) (objs w) batches).
  set (w1 := mkWorld (apply_writes ws (objs w)) (executor w)
               (calls w ++ (texts_of (objs w) <$> batches))).
  assert (selected traverse_flat w1 docs parameters =
          selected traverse_flat w docs parameters) as Hsel.
  { unfold selected, with_text, w1. simpl.
    rewrite (Htrav (apply_writes ws (objs w)) (objs w)).
    - apply list_filter_iff. intros r. by rewrite text_of_apply_writes.
    - intros r. split; [apply text_apply_writes|apply rest_apply_writes]. }
  rewrite encode_run, Hsel by done.
  change (executor w1) with (executor w). rewrite Hgen. simpl.
  split; [done|]. split; [|done].
  rewrite (writes_of_ext _ (apply_writes ws (objs w)) (objs w))
    by (intros; apply text_of_apply_writes).
  apply apply_writes_twice.
Qed.

(** X8. [zip] stops at the shorter list: a document whose every position in
    a batch lies beyond the rows [transform] returned for that batch is
    left as it was, and the request still returns. *)
Theorem encode_skips_positions_without_row docs parameters w batches r :
  truthy docs = true →
  _batch_generator (selected traverse_flat w docs parameters)
    (batch_size_used (executor w) parameters) () = inr batches →
  (∀ k batch i,
     batches !! k = Some batch → batch !! i = Some r →
     length (transform (tfidf_vectorizer (executor w)) (texts_of (objs w) batch)) ≤ i) →
  (encode transform traverse_flat docs parameters w).1 = Returned tt ∧
  objs (encode transform traverse_flat docs parameters w).2 !! r = objs w !! r.
Proof.
  intros Hdocs Hgen Hshort. rewrite encode_run, Hgen by done. simpl.
  split; [done|]. apply apply_writes_untouched.
  intros (k & batch & i & Hk & Hi & Hlt)%writes_of_positions.
  specialize (Hshort k batch i Hk Hi). lia.
Qed.

(** X9. When the batch size is at least the number of selected documents,
    and some document is selected, [encode] is the single-batch request
    outright: one call to [transform] on all the texts, the same outcome
    and the same world. *)
Theorem encode_with_large_batch_size docs parameters w b :
  truthy docs = true →
  batch_size_used (executor w) parameters = VInt b →
  selected traverse_flat w docs parameters ≠ [] →
  (Z.of_nat (length (selected traverse_flat w docs parameters)) ≤ b)%Z →
  encode transform traverse_flat docs parameters w =
    encode_single_batch transform traverse_flat docs parameters w.
Proof.
  intros Hdocs Hbs Hsome Hlen.
  rewrite encode_run, Hbs, _batch_generator_single by done.
  unfold encode_single_batch. rewrite Hdocs, embed_batch_run.
  rewrite writes_of_cons. simpl. unfold writes_of. simpl.
  by rewrite app_nil_r.
Qed.

(** X10. With a negative batch size [encode] returns without raising and
    without doing anything: no document is written and [transform] is not
    called, whatever the documents. *)
Theorem encode_with_negative_batch_size docs parameters w b :
  batch_size_used (executor w) parameters = VInt b →
  (b < 0)%Z →
  encode transform traverse_flat docs parameters w = (Returned tt, w).
Proof.
  intros Hbs Hb. destruct (truthy docs) eqn:Hdocs.
  - rewrite encode_run, Hbs, _batch_generator_negative by done.
    simpl. f_equal. apply world_eta.
  - unfold encode. by rewrite Hdocs.
Qed.

End Requests.

(** * The further properties on the concrete instance *)

Section MoreRuns.

Import Example.

Lemma batch_generator_bad_sizes_witness :
  (-2 < 0)%Z ∧ _batch_generator [1; 2; 3] (VInt (-2)) () = inr [].
Proof.
  split; [lia|]. apply (proj2 (batch_generator_bad_sizes [1; 2; 3]) (-2)%Z). lia.
Defined.

Lemma batch_generator_count_witness :
  (1 ≤ 2)%Z ∧
  ∃ batches : list (list nat),
    _batch_generator [1; 2; 3; 4; 5] (VInt 2) () = inr batches ∧
    Z.of_nat (length batches) = ((Z.of_nat (length [1; 2; 3; 4; 5]) + 2 - 1) / 2)%Z ∧
    Forall (λ batch, batch ≠ []) batches ∧
    ([1; 2; 3; 4; 5] = [] → batches = []) ∧
    ([1; 2; 3; 4; 5] ≠ [] → (Z.of_nat (length [1; 2; 3; 4; 5]) ≤ 2)%Z →
     batches = [[1; 2; 3; 4; 5]]).
Proof.
  split; [lia|]. apply (batch_generator_count [1; 2; 3; 4; 5] 2). lia.
Defined.

Lemma encode_raises_only_on_batch_size_witness :
  (encode transform traverse_flat roots ∅ (start 0)).1 =
    Raised (ValueError "range() arg 3 must not be zero") ∧
  (encode transform traverse_flat roots ∅ (start 0)).2 = start 0.
Proof.
  split; [reflexivity|].
  apply (proj2 (encode_raises_only_on_batch_size transform traverse_flat roots ∅ (start 0)
                  (ValueError "range() arg 3 must not be zero"))).
  reflexivity.
Defined.

Lemma selected_of_roots b : selected traverse_flat (start b) roots ∅ = [0; 2].
Proof. reflexivity. Qed.


Lemma encode_hands_over_each_text_once_witness :
  ∃ new,
    calls (encode transform traverse_flat roots ∅ (start 2)).2 = calls (start 2) ++ new ∧
    concat new = texts_of (objs (start 2)) (selected traverse_flat (start 2) roots ∅) ∧
    Z.of_nat (length new) =
      ((Z.of_nat (length (selected traverse_flat (start 2) roots ∅)) + 2 - 1) / 2)%Z.
Proof.
  apply (encode_hands_over_each_text_once transform traverse_flat roots ∅ (start 2) 2).
  - reflexivity.
  - reflexivity.
  - lia.
Defined.

Lemma encode_never_transforms_nothing_witness :
  selected traverse_flat (start 2) (Some [1]) ∅ = [] ∧
  (encode transform traverse_flat (Some [1]) ∅ (start 2)).2 = start 2.
Proof.
  split; [reflexivity|].
  apply (proj2 (encode_never_transforms_nothing transform traverse_flat (Some [1]) ∅ (start 2))).
  reflexivity.
Defined.

Lemma encode_twice_witness :
  let once := encode transform traverse_flat roots ∅ (start 1) in
  let twice := encode transform traverse_flat roots ∅ once.2 in
  twice.1 = once.1 ∧ objs twice.2 = objs once.2 ∧ executor twice.2 = executor (start 1).
Proof.
  apply (encode_twice transform traverse_flat roots ∅ (start 1)).
  intros h1 h2 ds path _. reflexivity.
Defined.

Lemma encode_skips_positions_without_row_witness :
  (encode Truncating.transform traverse_flat roots ∅ (start 2)).1 = Returned tt ∧
  objs (encode Truncating.transform traverse_flat roots ∅ (start 2)).2 !! 2 =
    objs (start 2) !! 2.
Proof.
  apply (encode_skips_positions_without_row Truncating.transform traverse_flat
           roots ∅ (start 2) [[0; 2]] 2).
  - reflexivity.
  - reflexivity.
  - intros k batch i Hk Hi.
    destruct k as [|k]; [|by rewrite lookup_cons, lookup_nil in Hk].
    injection Hk as <-.
    destruct i as [|[|i]]; [discriminate Hi|vm_compute; lia|discriminate Hi].
Defined.

Lemma encode_with_large_batch_size_witness :
  encode transform traverse_flat roots ∅ (start 2) =
    encode_single_batch transform traverse_flat roots ∅ (start 2).
Proof.
  apply (encode_with_large_batch_size transform traverse_flat roots ∅ (start 2) 2).
  - reflexivity.
  - reflexivity.
  - rewrite selected_of_roots. discriminate.
  - rewrite selected_of_roots. simpl. lia.
Defined.

Lemma encode_with_negative_batch_size_witness :
  encode transform traverse_flat roots ∅ (start (-1)) = (Returned tt, start (-1)).
Proof.
  apply (encode_with_negative_batch_size transform traverse_flat roots ∅ (start (-1)) (-1)).
  - reflexivity.
  - lia.
Defined.

(** The truncating vectorizer on the instance: document 0 gets its row,
    document 2, second in the batch, gets none. *)
Example encode_with_one_row_only :
  let out := encode Truncating.transform traverse_flat roots ∅ (start 2) in
  calls out.2 = [[Some "tf"%string; Some EmptyString]] ∧
  embedding_of (objs out.2) 0 = Some 2 ∧
  embedding_of (objs out.2) 2 = None.
Proof. vm_compute. done. Qed.

End MoreRuns.
